(** * A verified model of [http_server.py]

    The file embeds the request parser, the path resolver, the response
    builders and the request handler of the socket HTTP server, and proves
    the properties of its specification against that embedding.

    Conventions of the embedding.
    - A Python [str] is a [string]: the sequence of UTF-8 code units of the
      text.  Splitting at a space, joining, comparing and encoding act on
      code units exactly as they act on code points; the only operation
      that counts code points, the slice [path[1:]], is modelled on whole
      code points (see [slice_from_1]).
    - A Python [bytes] is a [list byte]; [str.encode()] is
      [list_byte_of_string].
    - Exceptions are values of [exn]; a computation that may raise returns a
      [result].
    - The operating system is a [world]: what each path names in the file
      system, and the text printed so far.
    - A connection is the sequence of chunks its reads return, after which
      the peer has closed; sending succeeds; the interrupt that ends the
      server arrives while it waits for a connection.  What the server
      does is recorded as a trace of events. *)

From Stdlib Require Import String Ascii List Bool Arith Lia.
From Stdlib Require Import Strings.Byte Sorting.Permutation.
From Stdlib Require DecimalString.
Import ListNotations.

Local Open Scope string_scope.
Local Open Scope list_scope.

(** ** Text and bytes *)

Definition bytes := list byte.

Definition encode (s : string) : bytes := list_byte_of_string s.

Definition CR : ascii := "013"%char.
Definition LF : ascii := "010"%char.
Definition SP : ascii := " "%char.

Definition CRLF : string := String CR (String LF EmptyString).
Definition NL : string := String LF EmptyString.

(** [sep.join(items)] on [bytes]. *)
Fixpoint bytes_join (sep : bytes) (items : list bytes) : bytes :=
  match items with
  | [] => []
  | [x] => x
  | x :: rest => x ++ sep ++ bytes_join sep rest
  end.

(** [sep.join(items)] on [str]. *)
Fixpoint str_join (sep : string) (items : list string) : string :=
  match items with
  | [] => EmptyString
  | [x] => x
  | x :: rest => x ++ sep ++ str_join sep rest
  end.

(** [s.split(sep)] for a one-character separator: every occurrence of the
    separator ends a token, so [n] separators give [n + 1] tokens, some of
    them possibly empty. *)
Fixpoint split (sep : ascii) (s : string) : list string :=
  match s with
  | EmptyString => [EmptyString]
  | String c rest =>
      if Ascii.eqb c sep then EmptyString :: split sep rest
      else match split sep rest with
           | tok :: toks => String c tok :: toks
           | [] => [String c EmptyString]
           end
  end.

(** [data.decode()] of bytes that [encode] produced. *)
Definition decode (data : bytes) : string := string_of_list_byte data.

Definition push_front (c : ascii) (tokens : list string) : list string :=
  match tokens with
  | tok :: toks => String c tok :: toks
  | [] => [String c EmptyString]
  end.

(** [s.split("\r\n")]: the text is cut at every CR LF, from the left. *)
Fixpoint split_crlf (s : string) : list string :=
  match s with
  | EmptyString => [EmptyString]
  | String c rest =>
      match rest with
      | String c' rest' =>
          if Ascii.eqb c CR && Ascii.eqb c' LF then EmptyString :: split_crlf rest'
          else push_front c (split_crlf rest)
      | EmptyString => [String c EmptyString]
      end
  end.

(** [CRLF in s]. *)
Fixpoint has_crlf (s : string) : bool :=
  match s with
  | EmptyString => false
  | String c rest =>
      match rest with
      | String c' _ => (Ascii.eqb c CR && Ascii.eqb c' LF) || has_crlf rest
      | EmptyString => false
      end
  end.

(** A UTF-8 continuation unit, [10xxxxxx]. *)
Definition is_continuation (c : ascii) : bool :=
  ((128 <=? nat_of_ascii c) && (nat_of_ascii c <? 192))%nat.

Fixpoint drop_continuation (s : string) : string :=
  match s with
  | EmptyString => EmptyString
  | String c rest => if is_continuation c then drop_continuation rest else s
  end.

(** [s[1:]]: the text without its first character (all of its code
    units); the empty text stays empty. *)
Definition slice_from_1 (s : string) : string :=
  match s with
  | EmptyString => EmptyString
  | String _ rest => drop_continuation rest
  end.

Definition startswith (c : ascii) (s : string) : bool :=
  match s with
  | String c0 _ => Ascii.eqb c0 c
  | EmptyString => false
  end.

Fixpoint endswith (c : ascii) (s : string) : bool :=
  match s with
  | EmptyString => false
  | String c0 EmptyString => Ascii.eqb c0 c
  | String _ rest => endswith c rest
  end.

Fixpoint contains (c : ascii) (s : string) : bool :=
  match s with
  | EmptyString => false
  | String c0 rest => Ascii.eqb c0 c || contains c rest
  end.

(** ** Exceptions *)

Inductive exn : Type :=
| NameError (msg : string)
| NotImplementedError
| IndexError
| AttributeError
| OSError.

Inductive result (A : Type) : Type :=
| Ok (a : A)
| Raise (e : exn).

Arguments Ok {A} a.
Arguments Raise {A} e.

(** The two conditions of the specification, as classes of exceptions. *)
Definition is_NotFound (e : exn) : bool :=
  match e with NameError _ => true | _ => false end.

Definition is_MethodNotSupported (e : exn) : bool :=
  match e with NotImplementedError => true | _ => false end.

(** ** Response builders *)

Definition response_ok (body mimetype : bytes) : bytes :=
  let response := [ encode "HTTP/1.1 200 OK";
                    encode "Content-Type: " ++ mimetype;
                    encode "";
                    body ] in
  bytes_join (encode CRLF) response.

Definition response_method_not_allowed : bytes :=
  encode ("HTTP/1.1 405 Method Not Allowed" ++ CRLF).

Definition response_not_found : bytes :=
  encode ("HTTP/1.1 404 Not Found" ++ CRLF).

(** ** Request parser *)

(** [requested[i]] on a list: [IndexError] out of range. *)
Definition index {A : Type} (l : list A) (i : nat) : result A :=
  match nth_error l i with
  | Some a => Ok a
  | None => Raise IndexError
  end.

Definition parse_request (request : string) : result string :=
  let requested := split SP request in
  match index requested 0 with
  | Raise e => Raise e
  | Ok request_method =>
      if String.eqb request_method "POST" then Raise NotImplementedError
      else index requested 1
  end.

(** The first space-separated token of a request. *)
Definition method_token (request : string) : string :=
  hd EmptyString (split SP request).

(** ** The operating system *)

(** What a path names.  [Dir] carries the names in the order in which
    [os.listdir] enumerates them; [File] carries the bytes [read()]
    returns.  Every existing entry is a readable directory or a readable
    regular file. *)
Inductive node : Type :=
| Dir (entries : list string)
| File (content : bytes).

Record world : Type := World {
  fs : string -> option node;
  stdout : list string
}.

(** Computations that read the file system, print and may raise.  What was
    printed before an exception stays printed. *)
Definition M (A : Type) : Type := world -> result A * world.

Definition ret {A : Type} (a : A) : M A := fun w => (Ok a, w).

Definition raise {A : Type} (e : exn) : M A := fun w => (Raise e, w).

Definition lift {A : Type} (r : result A) : M A := fun w => (r, w).

Definition bind {A B : Type} (m : M A) (k : A -> M B) : M B :=
  fun w =>
    match m w with
    | (Ok a, w') => k a w'
    | (Raise e, w') => (Raise e, w')
    end.

(** [try: body  except ...:], the handler chosen by the class of the
    exception; an exception no clause names goes on. *)
Definition try_except {A : Type} (body : M A) (clauses : exn -> option (M A)) : M A :=
  fun w =>
    match body w with
    | (Ok a, w') => (Ok a, w')
    | (Raise e, w') =>
        match clauses e with
        | Some handler => handler w'
        | None => (Raise e, w')
        end
    end.

Declare Scope py_scope.
Delimit Scope py_scope with py.
Notation "x <- m ;; k" := (bind m (fun x => k))
  (at level 61, m at next level, right associativity) : py_scope.
Notation "m ;; k" := (bind m (fun _ => k))
  (at level 61, right associativity) : py_scope.
Local Open Scope py_scope.

Definition print (text : string) : M unit :=
  fun w => (Ok tt, {| fs := fs w; stdout := stdout w ++ [text] |}).

Definition os_path_exists (p : string) : M bool :=
  fun w => (Ok (match fs w p with Some _ => true | None => false end), w).

Definition os_path_isdir (p : string) : M bool :=
  fun w => (Ok (match fs w p with Some (Dir _) => true | _ => false end), w).

Definition os_listdir (p : string) : M (list string) :=
  fun w => (match fs w p with Some (Dir names) => Ok names | _ => Raise OSError end, w).

(** [with open(p, "rb") as read_file: read_file.read()]. *)
Definition read_binary (p : string) : M bytes :=
  fun w => (match fs w p with Some (File content) => Ok content | _ => Raise OSError end, w).

(** [posixpath.join]: a component that starts with [/] replaces what came
    before it; otherwise it is appended, after a [/] unless the path so far
    is empty or already ends with one. *)
Definition join_step (path b : string) : string :=
  if startswith "/" b then b
  else if String.eqb path "" || endswith "/" path then path ++ b
  else path ++ "/" ++ b.

Definition os_path_join (a : string) (p : list string) : string :=
  fold_left join_step p a.

(** [o.encode()] where [o] is a [str] or [None]. *)
Definition encode_method (o : option string) : result bytes :=
  match o with
  | Some s => Ok (encode s)
  | None => Raise AttributeError
  end.

(** ** Path resolver and request handler *)

Section Deployment.

(** The directory of the server's own file, and the media-type guesser
    of the standard library, [mimetypes.guess_type], which returns a
    pair (type, encoding). *)
Variable current_dir : string.
Variable guess_type : string -> option string * option string.

Definition query_of (path : string) : string :=
  os_path_join current_dir ["webroot"; slice_from_1 path].

Definition response_path (path : string) : M (bytes * bytes) :=
  let query := query_of path in
  found <- os_path_exists query ;;
  if negb found then raise (NameError (path ++ " not found."))
  else
    isdir <- os_path_isdir query ;;
    if isdir then
      let mime_type := encode "text/plain" in
      names <- os_listdir query ;;
      let dir_info := str_join CRLF names in
      let content := encode dir_info in
      ret (content, mime_type)
    else
      mime_type <- lift (encode_method (fst (guess_type query))) ;;
      content <- read_binary query ;;
      ret (content, mime_type).

Definition handle_request (request : string) : M bytes :=
  print ("Request received:" ++ NL ++ request ++ NL ++ NL) ;;
  path <- lift (parse_request request) ;;
  try_except
    (resolved <- response_path path ;;
     let '(content, mime_type) := resolved in
     ret (response_ok content mime_type))
    (fun e =>
       match e with
       | NameError _ => Some (ret response_not_found)
       | NotImplementedError => Some (ret response_method_not_allowed)
       | _ => None
       end).

(** The response of a run, without the world it leaves. *)
Definition response_of (request : string) (w : world) : result bytes :=
  fst (handle_request request w).

End Deployment.

(** ** Requests of the accepted shape *)

(** The header block: every header line followed by CRLF. *)
Fixpoint header_block (headers : list string) : string :=
  match headers with
  | [] => EmptyString
  | h :: rest => h ++ CRLF ++ header_block rest
  end.

(** [METHOD SP PATH SP VERSION CRLF], the headers, the blank line that
    ends them, and whatever the client sent after it. *)
Definition request_text (method path version : string) (headers : list string)
    (payload : string) : string :=
  method ++ " " ++ path ++ " " ++ version ++ CRLF
    ++ header_block headers ++ CRLF ++ payload.

(** ** The objects a call hands back *)

(** Python values, as far as the return value of the parser is concerned:
    a [str], or a tuple of values. *)
#[warnings="-register-all"]
Inductive pyobj : Type :=
| PyStr (s : string)
| PyTuple (items : list pyobj).

Definition returned_object (r : result string) : result pyobj :=
  match r with
  | Ok s => Ok (PyStr s)
  | Raise e => Raise e
  end.

(** ** A sample deployment *)

Module Sample.

Definition current_dir : string := "/srv/app".

Fixpoint has_suffix (suffix s : string) : bool :=
  String.eqb suffix s
  || match s with
     | String _ rest => has_suffix suffix rest
     | EmptyString => false
     end.

(** A fragment of the standard extension table. *)
Definition guess_type (url : string) : option string * option string :=
  if has_suffix ".html" url then (Some "text/html", None)
  else if has_suffix ".png" url then (Some "image/png", None)
  else if has_suffix ".txt" url then (Some "text/plain", None)
  else (None, None).

Definition page : bytes := encode "<html><h1>Welcome:</h1></html>".
Definition picture : bytes := [x89; x50; x4e; x47; x0d; x0a; x1a; x0a].

Definition webroot (p : string) : option node :=
  if String.eqb p "/srv/app/webroot/" then Some (Dir ["a.html"; "b.png"; "notes"])
  else if String.eqb p "/srv/app/webroot/a.html" then Some (File page)
  else if String.eqb p "/srv/app/webroot/b.png" then Some (File picture)
  else if String.eqb p "/srv/app/webroot/notes" then Some (File (encode "to do"))
  else None.

Definition w0 : world := {| fs := webroot; stdout := [] |}.

Definition GET (path : string) : string :=
  request_text "GET" path "HTTP/1.1" ["Host: x"] "".

End Sample.

(** ** What a client cuts a response into *)

Fixpoint is_prefix (p data : bytes) : bool :=
  match p, data with
  | [], _ => true
  | _ :: _, [] => false
  | x :: p', y :: data' => Byte.eqb x y && is_prefix p' data'
  end.

(** [data.partition(sep)] for a non-empty separator: the part before its
    first occurrence, the separator and the part after it; the whole data
    and two empty parts when it does not occur. *)
Fixpoint partition (sep data : bytes) : bytes * bytes * bytes :=
  match data with
  | [] => ([], [], [])
  | b :: rest =>
      if is_prefix sep data then ([], sep, skipn (length sep) data)
      else let '(head, found, tail) := partition sep rest in
           (b :: head, found, tail)
  end.

(** ** The accept loop *)

(** [needle in s] on text. *)
Fixpoint str_contains (needle s : string) : bool :=
  String.prefix needle s
  || match s with
     | String _ rest => str_contains needle rest
     | EmptyString => false
     end.

Definition in_range (lo hi : nat) (b : byte) : bool :=
  ((lo <=? Byte.to_nat b) && (Byte.to_nat b <=? hi))%nat.

(** The second unit of a three-unit and of a four-unit sequence: no
    overlong forms, no surrogates, nothing above U+10FFFF. *)
Definition second_of_3 (b1 b2 : byte) : bool :=
  if Byte.eqb b1 xe0 then in_range 160 191 b2
  else if Byte.eqb b1 xed then in_range 128 159 b2
  else in_range 128 191 b2.

Definition second_of_4 (b1 b2 : byte) : bool :=
  if Byte.eqb b1 xf0 then in_range 144 191 b2
  else if Byte.eqb b1 xf4 then in_range 128 143 b2
  else in_range 128 191 b2.

(** The byte strings the strict UTF-8 decoder accepts. *)
Fixpoint well_formed_utf8 (data : bytes) : bool :=
  match data with
  | [] => true
  | b1 :: r1 =>
      if in_range 0 127 b1 then well_formed_utf8 r1
      else
        match r1 with
        | [] => false
        | b2 :: r2 =>
            if in_range 194 223 b1 then in_range 128 191 b2 && well_formed_utf8 r2
            else
              match r2 with
              | [] => false
              | b3 :: r3 =>
                  if in_range 224 239 b1
                  then second_of_3 b1 b2 && in_range 128 191 b3 && well_formed_utf8 r3
                  else
                    match r3 with
                    | [] => false
                    | b4 :: r4 =>
                        in_range 240 244 b1 && second_of_4 b1 b2
                        && in_range 128 191 b3 && in_range 128 191 b4
                        && well_formed_utf8 r4
                    end
              end
        end
  end.

(** [data.decode] with the UTF-8 codec: [None] stands for
    [UnicodeDecodeError]. *)
Definition decode_utf8 (data : bytes) : option string :=
  if well_formed_utf8 data then Some (string_of_list_byte data) else None.

Definition terminator : string := CRLF ++ CRLF.

(** The read loop of a connection.  [incoming] is what the successive calls
    of [conn.recv(1024)] return while the peer sends; when it is used up
    the peer has closed and [recv] returns no bytes.  The result is the
    accumulated request, or [None] when a chunk does not decode, together
    with the chunks left unread. *)
Fixpoint receive (incoming : list bytes) (request : string)
    : option string * list bytes :=
  match incoming with
  | [] => (Some request, [])
  | data :: later =>
      match decode_utf8 data with
      | None => (None, later)
      | Some text =>
          let request := (request ++ text)%string in
          if str_contains terminator request || (length data =? 0)%nat
          then (Some request, later)
          else receive later request
      end
  end.

(** A usable chunk: it decodes and is not empty. *)
Definition usable (data : bytes) : bool :=
  well_formed_utf8 data && negb (length data =? 0)%nat.

(** The peer address of an accepted connection, host and port, and the
    chunks it delivers. *)
Record connection : Type := Connection {
  peer : string * nat;
  incoming : list bytes
}.

(** The address as the log lines show it: host, a colon, the port in
    decimal. *)
Definition show_addr (addr : string * nat) : string :=
  fst addr ++ ":" ++ DecimalString.NilEmpty.string_of_uint (Nat.to_uint (snd addr)).

(** What the bare [except:] of a connection catches. *)
Inductive fault : Type :=
| Raised (e : exn)
| UnicodeDecodeError.

(** What the server does that can be seen from outside, in order. *)
Inductive event : Type :=
| Log (line : string)
| Traceback (f : fault)
| Sendall (to : string * nat) (data : bytes)
| Close (who : string * nat)
| CloseListening.

Record server_state : Type := ServerState {
  os : world;
  trace : list event
}.

Definition emit (e : event) (s : server_state) : server_state :=
  {| os := os s; trace := trace s ++ [e] |}.

Definition sendall_of (e : event) : list (string * nat * bytes) :=
  match e with
  | Sendall to data => [(to, data)]
  | _ => []
  end.

Definition close_of (e : event) : list (string * nat) :=
  match e with
  | Close who => [who]
  | _ => []
  end.

(** Everything sent, and every connection closed, so far. *)
Definition sent (s : server_state) : list (string * nat * bytes) :=
  flat_map sendall_of (trace s).

Definition closed (s : server_state) : list (string * nat) :=
  flat_map close_of (trace s).

Section Server.

Variable current_dir : string.
Variable guess_type : string -> option string * option string.

(** The body of the accept loop, from the accepted connection to the end
    of its [finally]. *)
Definition serve_connection (c : connection) (s : server_state) : server_state :=
  let s := emit (Log ("connection - " ++ show_addr (peer c))) s in
  let s :=
    match fst (receive (incoming c) "") with
    | None => emit (Traceback UnicodeDecodeError) s
    | Some request =>
        if (0 <? String.length request)%nat then
          match handle_request current_dir guess_type request (os s) with
          | (Ok response, w) =>
              emit (Sendall (peer c) response) {| os := w; trace := trace s |}
          | (Raise e, w) =>
              emit (Traceback (Raised e)) {| os := w; trace := trace s |}
          end
        else emit (Log "An empty request was recieved.") s
    end in
  emit (Close (peer c)) (emit (Log ("Closing " ++ show_addr (peer c))) s).

(** The accept loop over the connections accepted before the interrupt,
    which arrives while the server waits for the next one. *)
Fixpoint accept_loop (accepted : list connection) (s : server_state) : server_state :=
  let s := emit (Log "waiting for a connection") s in
  match accepted with
  | [] => s
  | c :: rest => accept_loop rest (serve_connection c s)
  end.

Definition server (accepted : list connection) (s : server_state) : server_state :=
  let s := emit (Log "making a server on 127.0.0.1:10000") s in
  emit CloseListening (accept_loop accepted s).

(** What becomes of a connection between its opening and its closing log
    lines, as a function of its chunks and the file system: a response
    sent, a traceback, or the notice of an empty request. *)
Definition answer (c : connection) (w : world) : event :=
  match fst (receive (incoming c) "") with
  | None => Traceback UnicodeDecodeError
  | Some request =>
      if (0 <? String.length request)%nat then
        match response_of current_dir guess_type request w with
        | Ok response => Sendall (peer c) response
        | Raise e => Traceback (Raised e)
        end
      else Log "An empty request was recieved."
  end.

(** What a connection is sent. *)
Definition reply (c : connection) (w : world) : list (string * nat * bytes) :=
  sendall_of (answer c w).

End Server.

(** ** A sample network *)

Module Wire.

(** A file system with one file outside every document root. *)
Definition outside (p : string) : option node :=
  if String.eqb p "/etc/motd.txt" then Some (File (encode "hello")) else None.

Definition w1 : world := {| fs := outside; stdout := [] |}.

Definition client : string * nat := ("127.0.0.1", 4242).

(** A request delivered whole, in two chunks, and with one character cut
    in two by the chunk boundary. *)
Definition whole (request : string) : connection :=
  {| peer := client; incoming := [encode request] |}.

Definition in_two (first second : string) : connection :=
  {| peer := client; incoming := [encode first; encode second] |}.

Definition cut_character : connection :=
  {| peer := client;
     incoming := [encode "GET /caf" ++ [xc3];
                  [xa9] ++ encode (" HTTP/1.1" ++ CRLF ++ CRLF)] |}.

Definition silent : connection := {| peer := client; incoming := [] |}.

Definition s0 : server_state := {| os := Sample.w0; trace := [] |}.

End Wire.

(** * Properties *)

(** ** Splitting and joining *)

Lemma split_not_nil (sep : ascii) (s : string) : split sep s <> [].
Proof.
  induction s as [|c s IH]; simpl; [discriminate|].
  destruct (Ascii.eqb c sep); [discriminate|].
  destruct (split sep s); [contradiction|discriminate].
Qed.

(** A separator-free prefix followed by the separator is a token. *)
Lemma split_token (sep : ascii) (tok rest : string) :
  contains sep tok = false ->
  split sep (tok ++ String sep rest) = tok :: split sep rest.
Proof.
  induction tok as [|c tok IH]; simpl; intros H.
  - now rewrite Ascii.eqb_refl.
  - apply orb_false_iff in H as [Hc Htok].
    rewrite Hc, (IH Htok). reflexivity.
Qed.

Lemma split_method_path (m p rest : string) :
  contains SP m = false -> contains SP p = false ->
  split SP (m ++ " " ++ p ++ " " ++ rest) = m :: p :: split SP rest.
Proof.
  intros Hm Hp.
  change (m ++ " " ++ p ++ " " ++ rest)%string
    with (m ++ String SP (p ++ String SP rest))%string.
  now rewrite !split_token.
Qed.

Lemma encode_app (s t : string) : encode (s ++ t) = encode s ++ encode t.
Proof.
  unfold encode, list_byte_of_string.
  induction s as [|c s IH]; simpl; [reflexivity|].
  f_equal. exact IH.
Qed.

Lemma append_empty_r (s : string) : (s ++ "")%string = s.
Proof.
  induction s as [|c s IH]; simpl; [reflexivity|]. now rewrite IH.
Qed.

Lemma append_assoc (s t u : string) : ((s ++ t) ++ u = s ++ t ++ u)%string.
Proof.
  induction s as [|c s IH]; simpl; [reflexivity|]. now rewrite IH.
Qed.

Lemma decode_encode (s : string) : decode (encode s) = s.
Proof.
  apply string_of_list_byte_of_string.
Qed.

(** Every joined item occurs in the joined text. *)
Lemma str_join_occurs (sep : string) (items : list string) (item : string) :
  In item items ->
  exists before after, str_join sep items = (before ++ item ++ after)%string.
Proof.
  induction items as [|x [|y rest] IH]; simpl; intros Hin.
  - contradiction.
  - destruct Hin as [->|[]]. exists EmptyString, EmptyString.
    simpl. now rewrite append_empty_r.
  - destruct Hin as [->|Hin].
    + exists EmptyString. eexists. reflexivity.
    + destruct (IH Hin) as (before & after & E).
      exists (x ++ sep ++ before)%string, after.
      simpl in E. rewrite E. now rewrite !append_assoc.
Qed.

(** A name without CR LF in it, followed by CR LF, is cut off whole. *)
Lemma split_crlf_item (item rest : string) :
  has_crlf item = false ->
  split_crlf (item ++ CRLF ++ rest) = item :: split_crlf rest.
Proof.
  induction item as [|c [|c' item'] IH]; intros H.
  - reflexivity.
  - simpl. rewrite Bool.andb_false_r. reflexivity.
  - change (has_crlf (String c (String c' item')))
      with ((Ascii.eqb c CR && Ascii.eqb c' LF) || has_crlf (String c' item')) in H.
    apply orb_false_iff in H as [Hc Hrest].
    change (split_crlf (String c (String c' item') ++ CRLF ++ rest))
      with (if Ascii.eqb c CR && Ascii.eqb c' LF
            then EmptyString :: split_crlf (item' ++ CRLF ++ rest)
            else push_front c (split_crlf (String c' item' ++ CRLF ++ rest))).
    rewrite Hc, (IH Hrest). reflexivity.
Qed.

Lemma split_crlf_single (item : string) :
  has_crlf item = false -> split_crlf item = [item].
Proof.
  induction item as [|c [|c' item'] IH]; intros H; try reflexivity.
  change (has_crlf (String c (String c' item')))
    with ((Ascii.eqb c CR && Ascii.eqb c' LF) || has_crlf (String c' item')) in H.
  apply orb_false_iff in H as [Hc Hrest].
  change (split_crlf (String c (String c' item')))
    with (if Ascii.eqb c CR && Ascii.eqb c' LF
          then EmptyString :: split_crlf item'
          else push_front c (split_crlf (String c' item'))).
  rewrite Hc, (IH Hrest). reflexivity.
Qed.

(** Cutting a joined listing at CR LF gives the names back, when there is
    at least one name and none contains CR LF. *)
Lemma split_crlf_join (names : list string) :
  names <> [] -> Forall (fun name => has_crlf name = false) names ->
  split_crlf (str_join CRLF names) = names.
Proof.
  induction names as [|x [|y rest] IH]; intros Hne Hall.
  - contradiction.
  - inversion Hall; subst. now apply split_crlf_single.
  - inversion Hall as [|? ? Hx Hrest]; subst.
    change (str_join CRLF (x :: y :: rest))
      with (x ++ CRLF ++ str_join CRLF (y :: rest))%string.
    rewrite (split_crlf_item _ _ Hx), IH; [reflexivity|discriminate|exact Hrest].
Qed.

(** ** The parser *)

Lemma parse_request_tokens (request m p : string) (rest : list string) :
  split SP request = m :: p :: rest ->
  parse_request request = if String.eqb m "POST" then Raise NotImplementedError else Ok p.
Proof.
  intros H. unfold parse_request. rewrite H. reflexivity.
Qed.

Lemma parse_request_post (request : string) :
  method_token request = "POST" ->
  parse_request request = Raise NotImplementedError.
Proof.
  unfold method_token, parse_request. intros H.
  destruct (split SP request) as [|m toks] eqn:E.
  - now apply split_not_nil in E.
  - simpl in *. subst m. reflexivity.
Qed.

Lemma parse_request_request_text (m p v : string) (hs : list string) (payload : string) :
  contains SP m = false -> contains SP p = false ->
  parse_request (request_text m p v hs payload)
  = if String.eqb m "POST" then Raise NotImplementedError else Ok p.
Proof.
  intros Hm Hp. unfold request_text.
  eapply parse_request_tokens. now apply split_method_path.
Qed.

(** ** The resolver and the handler, run on a world *)

Section Runs.

Variable current_dir : string.
Variable guess_type : string -> option string * option string.

(** The resolver only reads: it leaves the world as it found it, and its
    outcome is decided by what the queried path names. *)
Lemma response_path_run (path : string) (w : world) :
  response_path current_dir guess_type path w =
  (match fs w (query_of current_dir path) with
   | None => Raise (NameError (path ++ " not found."))
   | Some (Dir names) => Ok (encode (str_join CRLF names), encode "text/plain")
   | Some (File content) =>
       match fst (guess_type (query_of current_dir path)) with
       | Some t => Ok (content, encode t)
       | None => Raise AttributeError
       end
   end, w).
Proof.
  unfold response_path, bind, os_path_exists, os_path_isdir,
    os_listdir, read_binary, lift, ret, raise, encode_method.
  fold (query_of current_dir path).
  destruct (fs w (query_of current_dir path)) as [[names|content]|] eqn:E; simpl;
    rewrite ?E; try reflexivity.
  destruct (fst (guess_type (query_of current_dir path))); simpl; rewrite ?E; reflexivity.
Qed.

Lemma response_path_same_fs (path : string) (w w' : world) :
  fs w (query_of current_dir path) = fs w' (query_of current_dir path) ->
  fst (response_path current_dir guess_type path w) = fst (response_path current_dir guess_type path w').
Proof.
  intros H. rewrite !response_path_run. simpl. now rewrite H.
Qed.

(** The handler prints the request, parses it outside the [try], and
    maps the outcome of the resolver inside it. *)
Lemma handle_request_run (request : string) (w : world) :
  handle_request current_dir guess_type request w =
  (match parse_request request with
   | Raise e => Raise e
   | Ok path =>
       match fst (response_path current_dir guess_type path w) with
       | Ok (content, mime_type) => Ok (response_ok content mime_type)
       | Raise (NameError _) => Ok response_not_found
       | Raise NotImplementedError => Ok response_method_not_allowed
       | Raise e => Raise e
       end
   end,
   {| fs := fs w;
      stdout := stdout w ++ ["Request received:" ++ NL ++ request ++ NL ++ NL]%string |}).
Proof.
  unfold handle_request, bind, print, lift, try_except, ret.
  destruct (parse_request request) as [path|e]; [|reflexivity].
  rewrite !response_path_run. simpl.
  destruct (fs w (query_of current_dir path)) as [[names|content]|]; try reflexivity.
  destruct (fst (guess_type (query_of current_dir path))); reflexivity.
Qed.

Lemma response_of_run (request : string) (w : world) :
  response_of current_dir guess_type request w =
  match parse_request request with
  | Raise e => Raise e
  | Ok path =>
      match fst (response_path current_dir guess_type path w) with
      | Ok (content, mime_type) => Ok (response_ok content mime_type)
      | Raise (NameError _) => Ok response_not_found
      | Raise NotImplementedError => Ok response_method_not_allowed
      | Raise e => Raise e
      end
  end.
Proof.
  unfold response_of. now rewrite handle_request_run.
Qed.

Lemma handle_request_keeps_fs (request : string) (w : world) :
  fs (snd (handle_request current_dir guess_type request w)) = fs w.
Proof.
  now rewrite handle_request_run.
Qed.

(** Two worlds with the same file system answer alike, whatever was
    printed in them. *)
Lemma response_of_same_fs (request : string) (w w' : world) :
  (forall p, fs w p = fs w' p) ->
  response_of current_dir guess_type request w = response_of current_dir guess_type request w'.
Proof.
  intros H. rewrite !response_of_run.
  destruct (parse_request request) as [path|e]; [|reflexivity].
  now rewrite (response_path_same_fs path w w' (H _)).
Qed.

(** A request whose method token is POST leaves the handler as an
    exception: the parser runs before the [try] is entered. *)
Lemma response_of_post (request : string) (w : world) :
  method_token request = "POST" ->
  response_of current_dir guess_type request w = Raise NotImplementedError.
Proof.
  intros H. rewrite response_of_run. now rewrite (parse_request_post _ H).
Qed.

End Runs.

Lemma response_ok_unfold (body mimetype : bytes) :
  response_ok body mimetype
  = encode ("HTTP/1.1 200 OK" ++ CRLF ++ "Content-Type: ") ++ mimetype
      ++ encode (CRLF ++ CRLF) ++ body.
Proof.
  unfold response_ok, bytes_join.
  unfold encode. simpl. reflexivity.
Qed.

(** * The claims *)

(** C1.  A POST request is not answered with the 405 bytes: on
    [POST /a.html HTTP/1.1] followed by the blank line, the exception the
    parser raises leaves [handle_request], because the parser is called
    before the [try] whose [except NotImplementedError] clause builds the
    405 response; no response is returned. *)
Theorem post_request_escapes_handler :
  let request := request_text "POST" "/a.html" "HTTP/1.1" [] "" in
  method_token request = "POST"
  /\ response_of Sample.current_dir Sample.guess_type request Sample.w0
     = Raise NotImplementedError
  /\ response_of Sample.current_dir Sample.guess_type request Sample.w0
     <> Ok response_method_not_allowed.
Proof.
  cbv zeta. split; [reflexivity|].
  assert (E : response_of Sample.current_dir Sample.guess_type
                (request_text "POST" "/a.html" "HTTP/1.1" [] "") Sample.w0
              = Raise NotImplementedError)
    by (apply response_of_post; reflexivity).
  split; [exact E|]. rewrite E. discriminate.
Qed.

(** C2.  [response_ok body media_type] is the status line, the
    Content-Type header, one blank line and the body, joined with CRLF:
    the bytes [HTTP/1.1 200 OK CRLF Content-Type: media_type CRLF CRLF
    body]; so it is for an HTML body with media type [text/html]. *)
Theorem response_ok_framing :
  (forall body media_type : bytes,
      response_ok body media_type
      = encode ("HTTP/1.1 200 OK" ++ CRLF ++ "Content-Type: ") ++ media_type
          ++ encode (CRLF ++ CRLF) ++ body)
  /\ response_ok (encode "<html>...") (encode "text/html")
     = encode ("HTTP/1.1 200 OK" ++ CRLF ++ "Content-Type: text/html"
                 ++ CRLF ++ CRLF ++ "<html>...").
Proof.
  split.
  - intros body media_type. apply response_ok_unfold.
  - reflexivity.
Qed.

(** C3.  When the queried location of a path names nothing, the resolver
    raises the NotFound exception ([NameError]), and the handler answers any
    request that parses to this path with exactly the 404 status line. *)
Theorem missing_path_gives_404 (current_dir : string)
    (guess_type : string -> option string * option string)
    (path : string) (w : world) :
  fs w (query_of current_dir path) = None ->
  (exists e, fst (response_path current_dir guess_type path w) = Raise e
             /\ is_NotFound e = true /\ is_MethodNotSupported e = false)
  /\ forall request, parse_request request = Ok path ->
       response_of current_dir guess_type request w
       = Ok (encode ("HTTP/1.1 404 Not Found" ++ CRLF)).
Proof.
  intros Hnone. split.
  - exists (NameError (path ++ " not found.")).
    rewrite response_path_run, Hnone. auto.
  - intros request Hparse.
    rewrite response_of_run, Hparse, response_path_run, Hnone. reflexivity.
Qed.

Lemma missing_path_gives_404_witness :
  response_of Sample.current_dir Sample.guess_type
    (request_text "GET" "/missing.txt" "HTTP/1.1" [] "") Sample.w0
  = Ok (encode ("HTTP/1.1 404 Not Found" ++ CRLF)).
Proof.
  apply (proj2 (missing_path_gives_404 Sample.current_dir Sample.guess_type
                  "/missing.txt" Sample.w0 eq_refl)).
  reflexivity.
Defined.

(** C4, as the specification words it, fails: parsing [GET /x HTTP/1.1]
    returns the text [/x], not the pair of [GET] and [/x]; the method is
    not part of what the parser returns, since [HEAD /x HTTP/1.1] parses to
    the same value.  The tokens are those of the whole request text, not of
    its first line: after the two-token request line [GET /x] the second
    token runs on into the header line. *)
Lemma parse_request_returns_path_only :
  parse_request "GET /x HTTP/1.1" = Ok "/x"
  /\ parse_request "HEAD /x HTTP/1.1" = Ok "/x"
  /\ returned_object (parse_request "GET /x HTTP/1.1")
     <> Ok (PyTuple [PyStr "GET"; PyStr "/x"])
  /\ parse_request ("GET /x" ++ CRLF ++ "Host: a" ++ CRLF ++ CRLF)
     = Ok ("/x" ++ CRLF ++ "Host:")%string.
Proof.
  repeat split; try reflexivity. discriminate.
Qed.

(** C4, amended.  When the request text has at least two space-separated
    tokens and the first is not POST, the parser returns the second token,
    the path; when the first token is POST, it raises the
    MethodNotSupported exception ([NotImplementedError]). *)
Theorem parse_request_path (request : string) :
  (forall method path rest,
      split SP request = method :: path :: rest -> method <> "POST" ->
      parse_request request = Ok path)
  /\ (method_token request = "POST" ->
      exists e, parse_request request = Raise e /\ is_MethodNotSupported e = true).
Proof.
  split.
  - intros method path rest Htok Hm.
    rewrite (parse_request_tokens _ _ _ _ Htok).
    destruct (String.eqb_spec method "POST"); [contradiction|reflexivity].
  - intros Hpost. exists NotImplementedError.
    split; [now apply parse_request_post|reflexivity].
Qed.

Lemma parse_request_path_witness :
  parse_request (request_text "GET" "/x" "HTTP/1.1" [] "") = Ok "/x"
  /\ exists e, parse_request (request_text "POST" "/x" "HTTP/1.1" [] "") = Raise e
               /\ is_MethodNotSupported e = true.
Proof.
  split.
  - apply (proj1 (parse_request_path _) "GET" "/x"
             [String.append "HTTP/1.1" (String CR (String LF (String CR NL)))]).
    + reflexivity.
    + discriminate.
  - apply (proj2 (parse_request_path _)). reflexivity.
Defined.

(** C5.  When the queried location of a path is a regular file and the
    standard mapping guesses a media type for it, the resolver returns the
    exact bytes of the file together with that media type, encoded. *)
Theorem file_resolution (current_dir : string)
    (guess_type : string -> option string * option string)
    (path : string) (w : world) (content : bytes) (media_type : string) :
  fs w (query_of current_dir path) = Some (File content) ->
  fst (guess_type (query_of current_dir path)) = Some media_type ->
  fst (response_path current_dir guess_type path w) = Ok (content, encode media_type).
Proof.
  intros Hfile Hguess. now rewrite response_path_run, Hfile, Hguess.
Qed.

Lemma file_resolution_witness :
  fst (response_path Sample.current_dir Sample.guess_type "/a.html" Sample.w0)
  = Ok (Sample.page, encode "text/html")
  /\ fst (response_path Sample.current_dir Sample.guess_type "/b.png" Sample.w0)
     = Ok (Sample.picture, encode "image/png").
Proof.
  split.
  - apply (file_resolution Sample.current_dir Sample.guess_type
             "/a.html" Sample.w0 Sample.page "text/html"); reflexivity.
  - apply (file_resolution Sample.current_dir Sample.guess_type
             "/b.png" Sample.w0 Sample.picture "image/png"); reflexivity.
Defined.

(** The names are recoverable from the body of a listing: for a directory
    with at least one entry and no CR LF inside a name, cutting the decoded
    body at CR LF gives exactly the enumerated names. *)
Lemma listing_round_trip (current_dir : string)
    (guess_type : string -> option string * option string)
    (path : string) (w : world) (names : list string) :
  fs w (query_of current_dir path) = Some (Dir names) ->
  names <> [] -> Forall (fun name => has_crlf name = false) names ->
  exists body media_type,
    fst (response_path current_dir guess_type path w) = Ok (body, media_type)
    /\ split_crlf (decode body) = names.
Proof.
  intros Hdir Hne Hall. rewrite response_path_run, Hdir.
  do 2 eexists. split; [reflexivity|].
  rewrite decode_encode. now apply split_crlf_join.
Qed.

(** C6.  When the queried location of a path is a directory, the resolver
    returns media type [text/plain] and, as body, the names of the
    directory joined with CRLF in the order of the enumeration, so every
    entry occurs in the listing; under any other enumeration order of the
    same names the result is again the joined listing, of the same set of
    names. *)
Theorem directory_listing (current_dir : string)
    (guess_type : string -> option string * option string)
    (path : string) (w : world) (names : list string) :
  fs w (query_of current_dir path) = Some (Dir names) ->
  fst (response_path current_dir guess_type path w)
  = Ok (encode (str_join CRLF names), encode "text/plain")
  /\ (forall name, In name names ->
        exists before after,
          str_join CRLF names = (before ++ name ++ after)%string)
  /\ forall (w' : world) (names' : list string),
       fs w' (query_of current_dir path) = Some (Dir names') ->
       Permutation names names' ->
       fst (response_path current_dir guess_type path w')
       = Ok (encode (str_join CRLF names'), encode "text/plain")
       /\ forall name, In name names <-> In name names'.
Proof.
  intros Hdir. split; [|split].
  - now rewrite response_path_run, Hdir.
  - intros name. apply str_join_occurs.
  - intros w' names' Hdir' Hperm. split.
    + now rewrite response_path_run, Hdir'.
    + intros name. split; apply Permutation_in;
        [exact Hperm | now apply Permutation_sym].
Qed.

Lemma directory_listing_witness :
  fst (response_path Sample.current_dir Sample.guess_type "/" Sample.w0)
  = Ok (encode ("a.html" ++ CRLF ++ "b.png" ++ CRLF ++ "notes"), encode "text/plain").
Proof.
  apply (proj1 (directory_listing Sample.current_dir Sample.guess_type
                  "/" Sample.w0 ["a.html"; "b.png"; "notes"] eq_refl)).
Defined.

(** C7.  When the queried location of a path is a regular file for which
    no media type is guessed, the resolver raises an exception that is
    neither NotFound nor MethodNotSupported (encoding the missing type
    fails), and the handler does not catch it: for any request that parses
    to this path the handler raises the same exception and returns no
    response. *)
Theorem unguessable_type_propagates (current_dir : string)
    (guess_type : string -> option string * option string)
    (path : string) (w : world) (content : bytes) :
  fs w (query_of current_dir path) = Some (File content) ->
  fst (guess_type (query_of current_dir path)) = None ->
  exists e,
    fst (response_path current_dir guess_type path w) = Raise e
    /\ is_NotFound e = false /\ is_MethodNotSupported e = false
    /\ forall request, parse_request request = Ok path ->
         response_of current_dir guess_type request w = Raise e.
Proof.
  intros Hfile Hguess. exists AttributeError.
  rewrite response_path_run, Hfile, Hguess. repeat split.
  intros request Hparse.
  now rewrite response_of_run, Hparse, response_path_run, Hfile, Hguess.
Qed.

Lemma unguessable_type_propagates_witness :
  exists e,
    fst (response_path Sample.current_dir Sample.guess_type "/notes" Sample.w0) = Raise e
    /\ is_NotFound e = false /\ is_MethodNotSupported e = false
    /\ forall request, parse_request request = Ok "/notes" ->
         response_of Sample.current_dir Sample.guess_type request Sample.w0 = Raise e.
Proof.
  apply (unguessable_type_propagates Sample.current_dir Sample.guess_type
           "/notes" Sample.w0 (encode "to do")); reflexivity.
Defined.

(** C8.  Handling a request leaves the file system as it was, and handling
    the same request again, in the world the first run left, returns the
    same response. *)
Theorem handle_request_repeatable (current_dir : string)
    (guess_type : string -> option string * option string)
    (request : string) (w : world) :
  let after := snd (handle_request current_dir guess_type request w) in
  fs after = fs w
  /\ stdout after <> stdout w
  /\ response_of current_dir guess_type request after
     = response_of current_dir guess_type request w.
Proof.
  cbv zeta. split; [apply handle_request_keeps_fs|]. split.
  - rewrite handle_request_run. simpl. intros H.
    apply (f_equal (@length string)) in H.
    rewrite length_app in H. simpl in H. lia.
  - apply response_of_same_fs. intros p.
    now rewrite handle_request_keeps_fs.
Qed.

(** C9.  Two requests of the accepted shape with the same method token and
    the same path token get the same response, whatever their versions,
    headers and payloads. *)
Theorem headers_never_interfere (current_dir : string)
    (guess_type : string -> option string * option string) (w : world)
    (method path : string)
    (version1 version2 : string) (headers1 headers2 : list string)
    (payload1 payload2 : string) :
  contains SP method = false -> contains SP path = false ->
  response_of current_dir guess_type
    (request_text method path version1 headers1 payload1) w
  = response_of current_dir guess_type
      (request_text method path version2 headers2 payload2) w.
Proof.
  intros Hm Hp.
  now rewrite !response_of_run, !parse_request_request_text.
Qed.

Lemma headers_never_interfere_witness :
  response_of Sample.current_dir Sample.guess_type
    (request_text "GET" "/a.html" "HTTP/1.1" ["Host: x"] "") Sample.w0
  = response_of Sample.current_dir Sample.guess_type
      (request_text "GET" "/a.html" "HTTP/1.0"
         ["Host: y"; "Accept: text/html"] "ignored") Sample.w0.
Proof.
  apply headers_never_interfere; reflexivity.
Defined.

(** C10.  Whenever the handler returns, what it returns is the 200 framing
    of some body and media type, or the 404 status line, or the 405 status
    line; in each case it starts with [HTTP/1.1 ]. *)
Theorem response_shape (current_dir : string)
    (guess_type : string -> option string * option string)
    (request : string) (w : world) (response : bytes) :
  response_of current_dir guess_type request w = Ok response ->
  ((exists body media_type,
       response = encode ("HTTP/1.1 200 OK" ++ CRLF ++ "Content-Type: ")
                    ++ media_type ++ encode (CRLF ++ CRLF) ++ body)
   \/ response = encode ("HTTP/1.1 404 Not Found" ++ CRLF)
   \/ response = encode ("HTTP/1.1 405 Method Not Allowed" ++ CRLF))
  /\ exists rest, response = encode "HTTP/1.1 " ++ rest.
Proof.
  rewrite response_of_run.
  destruct (parse_request request) as [path|e]; [|discriminate].
  destruct (fst (response_path current_dir guess_type path w))
    as [[content mime_type]|[msg| | | |]]; intros H; inversion H; subst; clear H.
  - rewrite response_ok_unfold. split.
    + left. now exists content, mime_type.
    + eexists. reflexivity.
  - split; [right; left; reflexivity | eexists; reflexivity].
  - split; [right; right; reflexivity | eexists; reflexivity].
Qed.

Lemma response_shape_witness :
  exists rest,
    response_ok Sample.page (encode "text/html") = encode "HTTP/1.1 " ++ rest.
Proof.
  apply (response_shape Sample.current_dir Sample.guess_type
           (Sample.GET "/a.html") Sample.w0). reflexivity.
Defined.

(** * Further properties of the code *)

(** ** The parser on every input *)

Lemma split_cases (sep : ascii) (s : string) :
  (contains sep s = false /\ split sep s = [s])
  \/ (contains sep s = true /\ exists a b rest, split sep s = a :: b :: rest).
Proof.
  induction s as [|c s IH]; simpl.
  - left. now split.
  - destruct (Ascii.eqb c sep) eqn:Ec; simpl.
    + right. split; [reflexivity|].
      destruct (split sep s) as [|b rest] eqn:E; [now apply split_not_nil in E|].
      now exists EmptyString, b, rest.
    + destruct IH as [[Hc Hs]|[Hc (a & b & rest & Hs)]]; rewrite Hs, Hc.
      * left. now split.
      * right. split; [reflexivity|]. now exists (String c a), b, rest.
Qed.

Lemma split_tokens_clean (sep : ascii) (s : string) :
  Forall (fun tok => contains sep tok = false) (split sep s).
Proof.
  induction s as [|c s IH]; simpl.
  - now repeat constructor.
  - destruct (Ascii.eqb c sep) eqn:Ec.
    + now constructor.
    + destruct (split sep s) as [|tok toks]; inversion IH; subst.
      * now repeat constructor; simpl; rewrite Ec.
      * constructor; [simpl; now rewrite Ec | assumption].
Qed.

(** [sep.join(s.split(sep)) == s]. *)
Lemma split_join (sep : ascii) (s : string) :
  str_join (String sep EmptyString) (split sep s) = s.
Proof.
  induction s as [|c s IH]; simpl; [reflexivity|].
  destruct (Ascii.eqb_spec c sep) as [->|Hne].
  - destruct (split sep s) as [|tok toks] eqn:E; [now apply split_not_nil in E|].
    simpl in *. now rewrite IH.
  - destruct (split sep s) as [|tok [|tok' toks]] eqn:E;
      [now apply split_not_nil in E| |]; simpl in *; now rewrite <- IH.
Qed.

Lemma parse_request_raises (request : string) :
  (parse_request request = Raise NotImplementedError
   <-> method_token request = "POST")
  /\ (parse_request request = Raise IndexError
      <-> contains SP request = false /\ request <> "POST")
  /\ (forall e, parse_request request = Raise e ->
        e = NotImplementedError \/ e = IndexError).
Proof.
  unfold parse_request, method_token.
  destruct (split_cases SP request) as [[Hc Hs]|[Hc (m & p & rest & Hs)]];
    rewrite Hs; unfold index; simpl.
  - destruct (String.eqb_spec request "POST") as [->|Hne];
      (split; [|split]);
      [ tauto | split; [discriminate | tauto] | intros e H; injection H as <-; auto
      | split; [discriminate | congruence] | split; [tauto | reflexivity]
      | intros e H; injection H as <-; auto ].
  - destruct (String.eqb_spec m "POST") as [->|Hne];
      (split; [|split]);
      [ tauto | split; [discriminate | intros [H _]; congruence]
      | intros e H; injection H as <-; auto
      | split; [discriminate | congruence]
      | split; [discriminate | intros [H _]; congruence]
      | discriminate ].
Qed.


(** X1.  The parser fails in exactly two ways: with [NotImplementedError]
    exactly when the first token is POST, and with [IndexError] exactly
    when the request has no space at all and is not the bare word POST. *)
Theorem parse_request_failure_modes (request : string) :
  (parse_request request = Raise NotImplementedError
   <-> method_token request = "POST")
  /\ (parse_request request = Raise IndexError
      <-> contains SP request = false /\ request <> "POST")
  /\ (forall e, parse_request request = Raise e ->
        e = NotImplementedError \/ e = IndexError).
Proof.
  exact (parse_request_raises request).
Qed.

(** X2.  What the parser returns is the text between the first and the
    second space of the request (or up to its end): the request is the
    method token, a space, the returned path, and a rest that is empty or
    starts with a space; the path has no space in it, and the method is
    not POST. *)
Theorem parse_request_sound (request path : string) :
  parse_request request = Ok path ->
  contains SP path = false
  /\ contains SP (method_token request) = false
  /\ method_token request <> "POST"
  /\ exists tail,
       request = (method_token request ++ " " ++ path ++ tail)%string
       /\ (tail = EmptyString \/ startswith SP tail = true).
Proof.
  unfold parse_request, method_token.
  pose proof (split_tokens_clean SP request) as Hclean.
  pose proof (split_join SP request) as Hjoin.
  destruct (split SP request) as [|m [|p rest]] eqn:Hs; simpl.
  - discriminate.
  - destruct (String.eqb m "POST"); discriminate.
  - destruct (String.eqb_spec m "POST") as [->|Hne]; [discriminate|].
    unfold index. simpl. intros H. injection H as <-.
    pose proof (Forall_inv Hclean) as Hm.
    pose proof (Forall_inv (Forall_inv_tail Hclean)) as Hp.
    simpl in Hm, Hp.
    repeat split; try assumption.
    destruct rest as [|q rest].
    + exists EmptyString. split; [|now left].
      rewrite append_empty_r. symmetry. exact Hjoin.
    + exists (" " ++ str_join " " (q :: rest))%string. split; [|now right].
      symmetry. exact Hjoin.
Qed.

Lemma parse_request_sound_witness :
  contains SP "/x" = false
  /\ contains SP (method_token "GET /x HTTP/1.1") = false
  /\ method_token "GET /x HTTP/1.1" <> "POST"
  /\ exists tail,
       "GET /x HTTP/1.1"
       = (method_token "GET /x HTTP/1.1" ++ " " ++ "/x" ++ tail)%string
       /\ (tail = EmptyString \/ startswith SP tail = true).
Proof.
  apply (parse_request_sound "GET /x HTTP/1.1" "/x"). reflexivity.
Defined.

(** ** The framing of a 200 response, read back *)

Lemma is_prefix_app (p rest : bytes) : is_prefix p (p ++ rest) = true.
Proof.
  induction p as [|x p IH]; simpl; [reflexivity|].
  assert (Byte.eqb x x = true) as -> by now apply byte_dec_lb.
  exact IH.
Qed.

Lemma skipn_length_app (p rest : bytes) : skipn (length p) (p ++ rest) = rest.
Proof.
  induction p as [|x p IH]; simpl; [reflexivity|exact IH].
Qed.

Lemma byte_eqb_neq (x y : byte) : x <> y -> Byte.eqb x y = false.
Proof.
  intros H. destruct (Byte.eqb x y) eqn:E; [|reflexivity].
  now apply byte_dec_bl in E.
Qed.

(** Bytes that cannot start the separator are passed over. *)
Lemma partition_head (first : byte) (sep' head tail : bytes) :
  Forall (fun b => b <> first) head ->
  partition (first :: sep') (head ++ (first :: sep') ++ tail)
  = (head, first :: sep', tail).
Proof.
  induction head as [|b head IH]; intros Hclean.
  - change ([] ++ (first :: sep') ++ tail) with (first :: sep' ++ tail).
    unfold partition.
    change (is_prefix (first :: sep') (first :: sep' ++ tail))
      with (is_prefix (first :: sep') ((first :: sep') ++ tail)).
    rewrite is_prefix_app.
    change (first :: sep' ++ tail) with ((first :: sep') ++ tail).
    now rewrite skipn_length_app.
  - inversion Hclean as [|? ? Hb Hrest]; subst.
    simpl. rewrite (byte_eqb_neq first b) by congruence. simpl.
    simpl in IH. now rewrite (IH Hrest).
Qed.

Lemma response_ok_partition_run (body media_type : bytes) :
  Forall (fun b => b <> x0d) media_type ->
  partition (encode terminator) (response_ok body media_type)
  = (encode ("HTTP/1.1 200 OK" ++ CRLF ++ "Content-Type: ") ++ media_type,
     encode terminator, body).
Proof.
  intros Hclean. rewrite response_ok_unfold.
  pose proof (partition_head x0d [x0a; x0d; x0a] media_type body Hclean) as H.
  change (encode terminator) with [x0d; x0a; x0d; x0a].
  change (encode (CRLF ++ CRLF)) with [x0d; x0a; x0d; x0a].
  change (encode ("HTTP/1.1 200 OK" ++ CRLF ++ "Content-Type: ") ++ media_type
            ++ [x0d; x0a; x0d; x0a] ++ body)
    with (encode ("HTTP/1.1 200 OK" ++ CRLF ++ "Content-Type: ")
            ++ (media_type ++ [x0d; x0a; x0d; x0a] ++ body)).
  remember (media_type ++ [x0d; x0a; x0d; x0a] ++ body) as rest eqn:Erest.
  cbn. rewrite H. reflexivity.
Qed.

(** X3.  A client that cuts a 200 response at the first blank line gets
    the body back exactly, and before it the status line and the
    Content-Type header, whenever the media type has no carriage return in
    it: the body may hold any bytes, blank lines included. *)
Theorem response_ok_partition (body media_type : bytes) :
  Forall (fun b => b <> x0d) media_type ->
  partition (encode terminator) (response_ok body media_type)
  = (encode ("HTTP/1.1 200 OK" ++ CRLF ++ "Content-Type: ") ++ media_type,
     encode terminator, body).
Proof.
  exact (response_ok_partition_run body media_type).
Qed.

Lemma response_ok_partition_witness :
  partition (encode terminator)
    (response_ok (encode ("a" ++ CRLF ++ CRLF ++ "b")) (encode "text/plain"))
  = (encode ("HTTP/1.1 200 OK" ++ CRLF ++ "Content-Type: ") ++ encode "text/plain",
     encode terminator, encode ("a" ++ CRLF ++ CRLF ++ "b")).
Proof.
  apply response_ok_partition.
  repeat constructor; discriminate.
Defined.

(** X4.  The framing is unambiguous: two 200 responses with media types
    free of carriage returns are equal only when their bodies and their
    media types are. *)
Theorem response_ok_injective (body1 body2 media_type1 media_type2 : bytes) :
  Forall (fun b => b <> x0d) media_type1 ->
  Forall (fun b => b <> x0d) media_type2 ->
  response_ok body1 media_type1 = response_ok body2 media_type2 ->
  body1 = body2 /\ media_type1 = media_type2.
Proof.
  intros H1 H2 E.
  pose proof (response_ok_partition_run body1 media_type1 H1) as P1.
  pose proof (response_ok_partition_run body2 media_type2 H2) as P2.
  rewrite E, P2 in P1. injection P1 as Hm Hb.
  split; now symmetry.
Qed.

Lemma response_ok_injective_witness :
  encode "x" = encode "x" /\ encode "text/html" = encode "text/html".
Proof.
  apply (response_ok_injective (encode "x") (encode "x")
           (encode "text/html") (encode "text/html"));
    [repeat constructor; discriminate | repeat constructor; discriminate | reflexivity].
Defined.

(** ** Where a path leads *)

Lemma drop_continuation_slash (t : string) :
  startswith "/" t = true -> drop_continuation t = t.
Proof.
  destruct t as [|c t]; simpl; [reflexivity|].
  intros H. apply Ascii.eqb_eq in H. now subst c.
Qed.

Lemma append_not_empty (s t : string) :
  t <> EmptyString -> (s ++ t)%string <> EmptyString.
Proof.
  destruct s; simpl; [auto|discriminate].
Qed.

Lemma endswith_app (c : ascii) (s t : string) :
  t <> EmptyString -> endswith c (s ++ t) = endswith c t.
Proof.
  intros Ht. induction s as [|a s IH]; simpl; [reflexivity|].
  destruct (s ++ t)%string eqn:E; [|exact IH].
  now apply (append_not_empty s t) in E.
Qed.

(** The document root, whatever the server directory is, neither is empty
    nor ends with a slash. *)
Lemma webroot_base (current_dir : string) :
  exists stem, join_step current_dir "webroot" = (stem ++ "webroot")%string.
Proof.
  unfold join_step. simpl.
  destruct (String.eqb current_dir "" || endswith "/" current_dir).
  - now exists current_dir.
  - exists (current_dir ++ "/")%string. now rewrite append_assoc.
Qed.

Lemma query_of_relative (current_dir path : string) :
  startswith "/" (slice_from_1 path) = false ->
  query_of current_dir path
  = (join_step current_dir "webroot" ++ "/" ++ slice_from_1 path)%string.
Proof.
  intros Hrel. unfold query_of, os_path_join. simpl.
  destruct (webroot_base current_dir) as [stem ->].
  unfold join_step at 1. rewrite Hrel.
  rewrite endswith_app by discriminate. simpl.
  destruct (String.eqb_spec (stem ++ "webroot") "") as [E|_]; [|reflexivity].
  now apply append_not_empty in E.
Qed.

Lemma query_of_absolute (current_dir path : string) :
  startswith "/" (slice_from_1 path) = true ->
  query_of current_dir path = slice_from_1 path.
Proof.
  intros Habs. unfold query_of, os_path_join. simpl.
  unfold join_step at 1. now rewrite Habs.
Qed.

(** X5.  The document root does not confine the resolver: when the path
    after its first character starts with a slash, the location queried is
    that absolute path itself, so a GET for a slash followed by the
    absolute name of any regular file with a guessed media type is
    answered with the 200 response carrying that file. *)
Theorem absolute_path_escapes_webroot (current_dir : string)
    (guess_type : string -> option string * option string) (w : world)
    (target version : string) (headers : list string) (payload : string)
    (content : bytes) (media_type : string) :
  startswith "/" target = true -> contains SP target = false ->
  fs w target = Some (File content) ->
  fst (guess_type target) = Some media_type ->
  query_of current_dir ("/" ++ target) = target
  /\ response_of current_dir guess_type
       (request_text "GET" ("/" ++ target) version headers payload) w
     = Ok (response_ok content (encode media_type)).
Proof.
  intros Habs Hsp Hfile Hguess.
  assert (Hq : query_of current_dir ("/" ++ target) = target).
  { rewrite query_of_absolute; simpl; rewrite drop_continuation_slash; auto. }
  split; [exact Hq|].
  rewrite response_of_run, parse_request_request_text;
    [|reflexivity|simpl; exact Hsp].
  change (String.eqb "GET" "POST") with false. cbv iota.
  now rewrite response_path_run, Hq, Hfile, Hguess.
Qed.

Lemma absolute_path_escapes_webroot_witness :
  query_of Sample.current_dir "//etc/motd.txt" = "/etc/motd.txt"
  /\ response_of Sample.current_dir Sample.guess_type
       (request_text "GET" "//etc/motd.txt" "HTTP/1.1" [] "") Wire.w1
     = Ok (response_ok (encode "hello") (encode "text/plain")).
Proof.
  apply (absolute_path_escapes_webroot Sample.current_dir Sample.guess_type
           Wire.w1 "/etc/motd.txt" "HTTP/1.1" [] "" (encode "hello") "text/plain");
    reflexivity.
Defined.

(** X6.  For a server directory that is not empty and does not end with a
    slash, a path whose rest after the first character does not start with
    a slash is looked up at the server directory, [/webroot/] and that
    rest; the root path and the empty path both name the document root. *)
Theorem relative_path_location (current_dir path : string) :
  current_dir <> EmptyString -> endswith "/" current_dir = false ->
  startswith "/" (slice_from_1 path) = false ->
  query_of current_dir path = (current_dir ++ "/webroot/" ++ slice_from_1 path)%string
  /\ query_of current_dir "/" = (current_dir ++ "/webroot/")%string
  /\ query_of current_dir "" = (current_dir ++ "/webroot/")%string.
Proof.
  intros Hne Hend Hrel.
  assert (Hbase : join_step current_dir "webroot" = (current_dir ++ "/webroot")%string).
  { unfold join_step. simpl. rewrite Hend.
    destruct (String.eqb_spec current_dir ""); [contradiction|reflexivity]. }
  repeat split.
  - rewrite (query_of_relative _ _ Hrel), Hbase. now rewrite append_assoc.
  - rewrite query_of_relative by reflexivity. rewrite Hbase. simpl.
    now rewrite append_assoc.
  - rewrite query_of_relative by reflexivity. rewrite Hbase. simpl.
    now rewrite append_assoc.
Qed.

Lemma relative_path_location_witness :
  query_of "/srv/app" "/images/a.png" = "/srv/app/webroot/images/a.png"
  /\ query_of "/srv/app" "/" = "/srv/app/webroot/"
  /\ query_of "/srv/app" "" = "/srv/app/webroot/".
Proof.
  apply (relative_path_location "/srv/app" "/images/a.png");
    [discriminate | reflexivity | reflexivity].
Defined.

(** X7.  The first character of the path is dropped unread: two requests
    whose paths differ only in it are answered alike, so [Xa.html] is
    served like [/a.html]. *)
Theorem first_character_ignored (current_dir : string)
    (guess_type : string -> option string * option string) (w : world)
    (method rest version : string) (headers : list string) (payload : string)
    (c1 c2 : ascii) :
  contains SP method = false -> contains SP rest = false ->
  c1 <> SP -> c2 <> SP ->
  query_of current_dir (String c1 rest) = query_of current_dir (String c2 rest)
  /\ response_of current_dir guess_type
       (request_text method (String c1 rest) version headers payload) w
     = response_of current_dir guess_type
         (request_text method (String c2 rest) version headers payload) w.
Proof.
  intros Hm Hrest H1 H2.
  assert (Hq : query_of current_dir (String c1 rest)
               = query_of current_dir (String c2 rest)) by reflexivity.
  split; [exact Hq|].
  apply Ascii.eqb_neq in H1, H2.
  rewrite !response_of_run, !parse_request_request_text;
    try assumption; try (simpl; rewrite ?H1, ?H2; exact Hrest).
  destruct (String.eqb method "POST"); [reflexivity|].
  rewrite !response_path_run, Hq. simpl.
  destruct (fs w (query_of current_dir (String c2 rest))) as [[names|content]|];
    reflexivity.
Qed.

Lemma first_character_ignored_witness :
  query_of Sample.current_dir "Xa.html" = query_of Sample.current_dir "/a.html"
  /\ response_of Sample.current_dir Sample.guess_type
       (request_text "GET" "Xa.html" "HTTP/1.1" [] "") Sample.w0
     = response_of Sample.current_dir Sample.guess_type
         (request_text "GET" "/a.html" "HTTP/1.1" [] "") Sample.w0.
Proof.
  apply first_character_ignored; try reflexivity; discriminate.
Defined.



(** ** The handler from end to end *)

(** X9.  A request that parses to the path of a regular file with a
    guessed media type is answered with the 200 response whose
    Content-Type is that media type and whose body is the file, byte for
    byte. *)
Theorem existing_file_gives_200 (current_dir : string)
    (guess_type : string -> option string * option string)
    (request path : string) (w : world) (content : bytes) (media_type : string) :
  parse_request request = Ok path ->
  fs w (query_of current_dir path) = Some (File content) ->
  fst (guess_type (query_of current_dir path)) = Some media_type ->
  response_of current_dir guess_type request w
  = Ok (encode ("HTTP/1.1 200 OK" ++ CRLF ++ "Content-Type: " ++ media_type
                  ++ CRLF ++ CRLF) ++ content).
Proof.
  intros Hparse Hfile Hguess.
  rewrite response_of_run, Hparse, response_path_run, Hfile, Hguess.
  cbn [fst]. f_equal. rewrite response_ok_unfold.
  change ("HTTP/1.1 200 OK" ++ CRLF ++ "Content-Type: " ++ media_type
            ++ CRLF ++ CRLF)%string
    with (("HTTP/1.1 200 OK" ++ CRLF ++ "Content-Type: ")
            ++ media_type ++ (CRLF ++ CRLF))%string.
  rewrite (encode_app _ (media_type ++ (CRLF ++ CRLF))), (encode_app media_type).
  now rewrite <- !app_assoc.
Qed.

Lemma existing_file_gives_200_witness :
  response_of Sample.current_dir Sample.guess_type (Sample.GET "/b.png") Sample.w0
  = Ok (encode ("HTTP/1.1 200 OK" ++ CRLF ++ "Content-Type: " ++ "image/png"
                  ++ CRLF ++ CRLF) ++ Sample.picture).
Proof.
  apply (existing_file_gives_200 Sample.current_dir Sample.guess_type
           (Sample.GET "/b.png") "/b.png"); reflexivity.
Defined.

(** X10.  A request that parses to the path of a directory is answered
    with a 200 response of type [text/plain] whose body is the listing:
    the entry names in enumeration order, CR LF between them and none
    after the last. *)
Theorem existing_directory_gives_200 (current_dir : string)
    (guess_type : string -> option string * option string)
    (request path : string) (w : world) (names : list string) :
  parse_request request = Ok path ->
  fs w (query_of current_dir path) = Some (Dir names) ->
  response_of current_dir guess_type request w
  = Ok (encode ("HTTP/1.1 200 OK" ++ CRLF ++ "Content-Type: text/plain"
                  ++ CRLF ++ CRLF) ++ encode (str_join CRLF names)).
Proof.
  intros Hparse Hdir.
  rewrite response_of_run, Hparse, response_path_run, Hdir. simpl.
  now rewrite response_ok_unfold.
Qed.

Lemma existing_directory_gives_200_witness :
  response_of Sample.current_dir Sample.guess_type (Sample.GET "/") Sample.w0
  = Ok (encode ("HTTP/1.1 200 OK" ++ CRLF ++ "Content-Type: text/plain"
                  ++ CRLF ++ CRLF)
          ++ encode (str_join CRLF ["a.html"; "b.png"; "notes"])).
Proof.
  apply (existing_directory_gives_200 Sample.current_dir Sample.guess_type
           (Sample.GET "/") "/" Sample.w0 ["a.html"; "b.png"; "notes"]);
    reflexivity.
Defined.



(** X12.  The handler never returns the 405 response, whatever the request
    and the file system: its [except NotImplementedError] clause cannot be
    reached. *)
Theorem handler_never_returns_405 (current_dir : string)
    (guess_type : string -> option string * option string)
    (request : string) (w : world) :
  response_of current_dir guess_type request w <> Ok response_method_not_allowed.
Proof.
  rewrite response_of_run.
  destruct (parse_request request) as [path|e]; [|discriminate].
  rewrite response_path_run. simpl.
  destruct (fs w (query_of current_dir path)) as [[names|content]|].
  - rewrite response_ok_unfold. discriminate.
  - destruct (fst (guess_type (query_of current_dir path)));
      [rewrite response_ok_unfold|]; discriminate.
  - discriminate.
Qed.

(** ** The read loop *)

Lemma decode_app (a b : bytes) : decode (a ++ b) = (decode a ++ decode b)%string.
Proof.
  unfold decode, string_of_list_byte.
  induction a as [|x a IH]; simpl; [reflexivity|]. now rewrite IH.
Qed.

Lemma decode_utf8_some (data : bytes) (text : string) :
  decode_utf8 data = Some text -> well_formed_utf8 data = true /\ text = decode data.
Proof.
  unfold decode_utf8. destruct (well_formed_utf8 data); [|discriminate].
  intros H. injection H as <-. now split.
Qed.

Lemma decode_utf8_well_formed (data : bytes) :
  well_formed_utf8 data = true -> decode_utf8 data = Some (decode data).
Proof.
  unfold decode_utf8. now intros ->.
Qed.

Lemma prefix_app (needle s t : string) :
  String.prefix needle s = true -> String.prefix needle (s ++ t) = true.
Proof.
  revert needle. induction s as [|a s IH]; intros needle.
  - destruct needle; [now destruct t|discriminate].
  - destruct needle as [|c needle]; [reflexivity|]. simpl.
    destruct (Ascii.ascii_dec c a); [apply IH|discriminate].
Qed.

(** A needle absent from a text is absent from its beginnings. *)
Lemma str_contains_app_false (needle s t : string) :
  str_contains needle (s ++ t) = false -> str_contains needle s = false.
Proof.
  induction s as [|a s IH]; intros H.
  - destruct needle; [destruct t; discriminate|reflexivity].
  - change (str_contains needle (String a s ++ t))
      with (String.prefix needle (String a (s ++ t))
            || str_contains needle (s ++ t)) in H.
    change (String.prefix needle (String a s) || str_contains needle s = false).
    apply orb_false_iff in H as [Hp Hrest].
    rewrite (IH Hrest), orb_false_r.
    destruct (String.prefix needle (String a s)) eqn:E; [|reflexivity].
    apply (prefix_app _ _ t) in E.
    change (String a s ++ t)%string with (String a (s ++ t)) in E. congruence.
Qed.

Lemma str_contains_not_empty (needle s : string) :
  needle <> EmptyString -> str_contains needle s = true ->
  (0 <? String.length s)%nat = true.
Proof.
  intros Hn. destruct s; simpl; [|reflexivity].
  destruct needle; [contradiction|discriminate].
Qed.

Lemma receive_prefix (chunks : list bytes) :
  forall (acc request : string) (unread : list bytes),
    receive chunks acc = (Some request, unread) ->
    exists read,
      chunks = read ++ unread
      /\ request = (acc ++ decode (concat read))%string
      /\ Forall (fun data => well_formed_utf8 data = true) read
      /\ (str_contains terminator request = true
          \/ unread = []
          \/ exists before, read = before ++ [[]]).
Proof.
  induction chunks as [|data later IH]; intros acc request unread H.
  - simpl in H. injection H as <- <-. exists []. simpl.
    rewrite append_empty_r. repeat split; auto.
  - simpl in H. destruct (decode_utf8 data) as [text|] eqn:D; [|discriminate].
    apply decode_utf8_some in D as [Hwf ->].
    destruct (str_contains terminator (acc ++ decode data)) eqn:T.
    + simpl in H. injection H as <- <-. exists [data]. simpl.
      rewrite app_nil_r. repeat split; auto.
    + simpl in H. destruct (length data =? 0)%nat eqn:L.
      * injection H as <- <-. exists [data]. simpl.
        rewrite app_nil_r. repeat split; auto.
        right. right. exists []. simpl.
        destruct data; [reflexivity|discriminate].
      * destruct (IH _ _ _ H) as (read & -> & -> & Hall & Hstop).
        assert (Heq : ((acc ++ decode data) ++ decode (concat read)
                       = acc ++ decode (data ++ concat read)%list)%string)
          by now rewrite decode_app, append_assoc.
        exists (data :: read).
        change (concat (data :: read)) with (data ++ concat read).
        split; [reflexivity|]. split; [exact Heq|]. split; [now constructor|].
        destruct Hstop as [Hs|[Hs|[before ->]]];
          [now left | now right; left | right; right; now exists (data :: before)].
Qed.

Lemma receive_skip (before rest : list bytes) :
  forall acc : string,
    Forall (fun data => usable data = true) before ->
    str_contains terminator (acc ++ decode (concat before)) = false ->
    receive (before ++ rest) acc = receive rest (acc ++ decode (concat before)).
Proof.
  induction before as [|data before IH]; intros acc Hall Hnone.
  - simpl. now rewrite append_empty_r.
  - inversion Hall as [|? ? Hdata Hrest]; subst.
    apply andb_true_iff in Hdata as [Hwf Hlen].
    apply negb_true_iff in Hlen.
    simpl in Hnone. rewrite decode_app, <- append_assoc in Hnone.
    simpl. rewrite (decode_utf8_well_formed _ Hwf).
    rewrite (str_contains_app_false _ _ _ Hnone), Hlen. simpl.
    rewrite (IH _ Hrest Hnone). now rewrite decode_app, append_assoc.
Qed.

(** X13.  The request handed on is what was received, in order and
    without loss: the decoded concatenation of the chunks read, which are
    a beginning of the chunks delivered; reading stops only when the
    blank line has arrived, when a read returns no bytes, or when the peer
    has closed. *)
Theorem receive_reads_in_order (chunks unread : list bytes) (request : string) :
  receive chunks "" = (Some request, unread) ->
  exists read,
    chunks = read ++ unread
    /\ request = decode (concat read)
    /\ Forall (fun data => well_formed_utf8 data = true) read
    /\ (str_contains terminator request = true
        \/ unread = []
        \/ exists before, read = before ++ [[]]).
Proof.
  intros H. destruct (receive_prefix _ _ _ _ H) as (read & H1 & H2 & H3 & H4).
  exists read. repeat split; auto.
Qed.

Lemma receive_reads_in_order_witness :
  exists read,
    [encode ("GET / HTTP/1.1" ++ CRLF); encode CRLF; encode "later"]
    = read ++ [encode "later"]
    /\ ("GET / HTTP/1.1" ++ CRLF ++ CRLF)%string = decode (concat read)
    /\ Forall (fun data => well_formed_utf8 data = true) read
    /\ (str_contains terminator ("GET / HTTP/1.1" ++ CRLF ++ CRLF) = true
        \/ [encode "later"] = []
        \/ exists before, read = before ++ [[]]).
Proof.
  apply (receive_reads_in_order
           [encode ("GET / HTTP/1.1" ++ CRLF); encode CRLF; encode "later"]).
  reflexivity.
Defined.

(** X14.  Reading stops with the chunk that completes the blank line:
    after usable chunks without a blank line, a chunk that decodes and
    brings the blank line ends the request, and the chunks behind it are
    left unread. *)
Theorem receive_stops_at_blank_line (before later : list bytes) (data : bytes) :
  Forall (fun chunk => usable chunk = true) before ->
  str_contains terminator (decode (concat before)) = false ->
  well_formed_utf8 data = true ->
  str_contains terminator (decode (concat before) ++ decode data) = true ->
  receive (before ++ data :: later) ""
  = (Some (decode (concat before) ++ decode data)%string, later).
Proof.
  intros Hall Hnone Hwf Hterm.
  rewrite (receive_skip before (data :: later) "" Hall Hnone).
  simpl. rewrite (decode_utf8_well_formed _ Hwf), Hterm. reflexivity.
Qed.

Lemma receive_stops_at_blank_line_witness :
  receive ([encode ("GET / HTTP/1.1" ++ CRLF)] ++ encode CRLF :: [encode "later"]) ""
  = (Some (decode (concat [encode ("GET / HTTP/1.1" ++ CRLF)]) ++ decode (encode CRLF))%string,
     [encode "later"]).
Proof.
  apply (receive_stops_at_blank_line
           [encode ("GET / HTTP/1.1" ++ CRLF)] [encode "later"] (encode CRLF));
    try reflexivity.
  repeat constructor.
Defined.

(** X15.  Without a blank line the server reads on until the peer closes:
    usable chunks that never complete a blank line are all read, and the
    request is their whole decoded concatenation. *)
Theorem receive_waits_for_close (chunks : list bytes) :
  Forall (fun chunk => usable chunk = true) chunks ->
  str_contains terminator (decode (concat chunks)) = false ->
  receive chunks "" = (Some (decode (concat chunks)), []).
Proof.
  intros Hall Hnone.
  pose proof (receive_skip chunks [] "" Hall Hnone) as H.
  rewrite app_nil_r in H. exact H.
Qed.

Lemma receive_waits_for_close_witness :
  receive [encode "GET / HT"; encode ("TP/1.1" ++ CRLF)] ""
  = (Some (decode (concat [encode "GET / HT"; encode ("TP/1.1" ++ CRLF)])), []).
Proof.
  apply receive_waits_for_close; [repeat constructor | reflexivity].
Defined.

(** ** Connections *)

Lemma sent_emit (e : event) (s : server_state) :
  sent (emit e s) = sent s ++ sendall_of e.
Proof.
  unfold sent, emit. simpl. rewrite flat_map_app. simpl. now rewrite app_nil_r.
Qed.

Lemma closed_emit (e : event) (s : server_state) :
  closed (emit e s) = closed s ++ close_of e.
Proof.
  unfold closed, emit. simpl. rewrite flat_map_app. simpl. now rewrite app_nil_r.
Qed.

Section Connections.

Variable current_dir : string.
Variable guess_type : string -> option string * option string.

(** A connection adds four events: its opening line, its answer, its
    closing line and its closing; only the printed text of the world can
    have changed after it. *)
Lemma serve_connection_trace (c : connection) (s : server_state) :
  trace (serve_connection current_dir guess_type c s)
  = trace s ++ [ Log ("connection - " ++ show_addr (peer c));
                 answer current_dir guess_type c (os s);
                 Log ("Closing " ++ show_addr (peer c));
                 Close (peer c) ].
Proof.
  unfold serve_connection, answer, response_of.
  destruct (fst (receive (incoming c) "")) as [request|]; simpl.
  - destruct (0 <? String.length request)%nat; simpl.
    + destruct (handle_request current_dir guess_type request (os s)) as [[r|e] w];
        simpl; now rewrite <- !app_assoc.
    + now rewrite <- !app_assoc.
  - now rewrite <- !app_assoc.
Qed.

Lemma serve_connection_fs (c : connection) (s : server_state) :
  fs (os (serve_connection current_dir guess_type c s)) = fs (os s).
Proof.
  unfold serve_connection.
  destruct (fst (receive (incoming c) "")) as [request|]; simpl; [|reflexivity].
  destruct (0 <? String.length request)%nat; simpl; [|reflexivity].
  pose proof (handle_request_keeps_fs current_dir guess_type request (os s)) as H.
  destruct (handle_request current_dir guess_type request (os s)) as [[r|e] w];
    exact H.
Qed.

Lemma answer_same_fs (c : connection) (w w' : world) :
  (forall p, fs w p = fs w' p) ->
  answer current_dir guess_type c w = answer current_dir guess_type c w'.
Proof.
  intros H. unfold answer.
  destruct (fst (receive (incoming c) "")) as [request|]; [|reflexivity].
  destruct (0 <? String.length request)%nat; [|reflexivity].
  now rewrite (response_of_same_fs current_dir guess_type request w w' H).
Qed.

Lemma serve_connection_sent (c : connection) (s : server_state) :
  sent (serve_connection current_dir guess_type c s)
  = sent s ++ reply current_dir guess_type c (os s).
Proof.
  unfold sent at 1. rewrite serve_connection_trace, flat_map_app.
  unfold reply. simpl. now rewrite app_nil_r.
Qed.

Lemma serve_connection_closed (c : connection) (s : server_state) :
  closed (serve_connection current_dir guess_type c s) = closed s ++ [peer c].
Proof.
  unfold closed at 1. rewrite serve_connection_trace, flat_map_app. simpl.
  unfold answer, response_of.
  destruct (fst (receive (incoming c) "")) as [request|]; [|reflexivity].
  destruct (0 <? String.length request)%nat; [|reflexivity].
  now destruct (fst (handle_request current_dir guess_type request (os s))).
Qed.

Lemma accept_loop_sent (accepted : list connection) :
  forall s : server_state,
    sent (accept_loop current_dir guess_type accepted s)
    = sent s ++ flat_map (fun c => reply current_dir guess_type c (os s)) accepted.
Proof.
  induction accepted as [|c rest IH]; intros s; cbn [accept_loop flat_map].
  - rewrite sent_emit. reflexivity.
  - rewrite IH, serve_connection_sent, sent_emit.
    cbn [sendall_of]. rewrite app_nil_r, <- app_assoc. f_equal. f_equal.
    apply flat_map_ext. intros c'. unfold reply. f_equal.
    apply answer_same_fs. intros p. now rewrite serve_connection_fs.
Qed.

Lemma accept_loop_closed (accepted : list connection) :
  forall s : server_state,
    closed (accept_loop current_dir guess_type accepted s)
    = closed s ++ map peer accepted.
Proof.
  induction accepted as [|c rest IH]; intros s; cbn [accept_loop map].
  - rewrite closed_emit. reflexivity.
  - rewrite IH, serve_connection_closed, closed_emit.
    cbn [close_of]. now rewrite app_nil_r, <- app_assoc.
Qed.

Lemma accept_loop_fs (accepted : list connection) :
  forall s : server_state,
    fs (os (accept_loop current_dir guess_type accepted s)) = fs (os s).
Proof.
  induction accepted as [|c rest IH]; intros s; cbn [accept_loop];
    [reflexivity|].
  now rewrite IH, serve_connection_fs.
Qed.

End Connections.

(** X16.  Whatever happens on a connection, it is closed, once and last:
    the server logs its opening, does exactly one of three things (sends
    one response to this peer, prints a traceback, or notes an empty
    request), logs the closing and closes it. *)
Theorem connection_always_closed (current_dir : string)
    (guess_type : string -> option string * option string)
    (c : connection) (s : server_state) :
  exists middle,
    trace (serve_connection current_dir guess_type c s)
    = trace s ++ [ Log ("connection - " ++ show_addr (peer c)); middle;
                   Log ("Closing " ++ show_addr (peer c)); Close (peer c) ]
    /\ ((exists response, middle = Sendall (peer c) response)
        \/ (exists f, middle = Traceback f)
        \/ middle = Log "An empty request was recieved.")
    /\ closed (serve_connection current_dir guess_type c s) = closed s ++ [peer c].
Proof.
  exists (answer current_dir guess_type c (os s)).
  split; [apply serve_connection_trace|].
  split; [|apply serve_connection_closed].
  unfold answer.
  destruct (fst (receive (incoming c) "")) as [request|]; [|right; left; eauto].
  destruct (0 <? String.length request)%nat; [|now right; right].
  destruct (response_of current_dir guess_type request (os s)) as [r|e];
    [left|right; left]; eauto.
Qed.

(** X17.  Connections do not influence one another: over any sequence of
    accepted connections, what the server sends is, connection by
    connection, what each would be sent on its own against the file system
    the server started with, whether earlier connections were answered or
    failed; and the file system is left as it was. *)
Theorem replies_are_independent (current_dir : string)
    (guess_type : string -> option string * option string)
    (accepted : list connection) (s : server_state) :
  sent (accept_loop current_dir guess_type accepted s)
  = sent s ++ flat_map (fun c => reply current_dir guess_type c (os s)) accepted
  /\ fs (os (accept_loop current_dir guess_type accepted s)) = fs (os s)
  /\ forall c, (length (reply current_dir guess_type c (os s)) <= 1)%nat.
Proof.
  split; [apply accept_loop_sent|]. split; [apply accept_loop_fs|].
  intros c. unfold reply. destruct (answer current_dir guess_type c (os s));
    simpl; lia.
Qed.

(** X18.  Every accepted connection is closed exactly once, in the order
    of acceptance, and the listening socket is closed after all of them,
    as the last thing the server does. *)
Theorem server_closes_everything (current_dir : string)
    (guess_type : string -> option string * option string)
    (accepted : list connection) (s : server_state) :
  closed (server current_dir guess_type accepted s) = closed s ++ map peer accepted
  /\ exists earlier,
       trace (server current_dir guess_type accepted s) = earlier ++ [CloseListening]
       /\ closed {| os := os s; trace := earlier |} = closed s ++ map peer accepted.
Proof.
  unfold server.
  assert (H : closed (accept_loop current_dir guess_type accepted
                        (emit (Log "making a server on 127.0.0.1:10000") s))
              = closed s ++ map peer accepted).
  { rewrite accept_loop_closed, closed_emit. simpl. now rewrite app_nil_r. }
  split.
  - rewrite closed_emit, H. simpl. now rewrite app_nil_r.
  - eexists. split; [reflexivity|]. exact H.
Qed.

(** X19.  A chunk that is not well-formed UTF-8 on its own costs the
    client its answer, even when the chunks together are: after usable
    chunks without a blank line, such a chunk makes the server print a
    traceback and send nothing, and the handler is not run. *)
Theorem undecodable_chunk_drops_connection (current_dir : string)
    (guess_type : string -> option string * option string)
    (c : connection) (s : server_state)
    (before later : list bytes) (data : bytes) :
  incoming c = before ++ data :: later ->
  Forall (fun chunk => usable chunk = true) before ->
  str_contains terminator (decode (concat before)) = false ->
  well_formed_utf8 data = false ->
  answer current_dir guess_type c (os s) = Traceback UnicodeDecodeError
  /\ sent (serve_connection current_dir guess_type c s) = sent s
  /\ os (serve_connection current_dir guess_type c s) = os s.
Proof.
  intros Hin Hall Hnone Hbad.
  assert (Hrecv : fst (receive (incoming c) "") = None).
  { rewrite Hin, (receive_skip before (data :: later) "" Hall Hnone).
    simpl. unfold decode_utf8. now rewrite Hbad. }
  assert (Hans : answer current_dir guess_type c (os s) = Traceback UnicodeDecodeError).
  { unfold answer. now rewrite Hrecv. }
  split; [exact Hans|]. split.
  - rewrite serve_connection_sent. unfold reply. rewrite Hans. simpl.
    now rewrite app_nil_r.
  - unfold serve_connection. now rewrite Hrecv.
Qed.

Lemma undecodable_chunk_drops_connection_witness :
  well_formed_utf8 (concat (incoming Wire.cut_character)) = true
  /\ answer Sample.current_dir Sample.guess_type Wire.cut_character (os Wire.s0)
     = Traceback UnicodeDecodeError
  /\ sent (serve_connection Sample.current_dir Sample.guess_type
             Wire.cut_character Wire.s0) = sent Wire.s0
  /\ os (serve_connection Sample.current_dir Sample.guess_type
           Wire.cut_character Wire.s0) = os Wire.s0.
Proof.
  split; [reflexivity|].
  apply (undecodable_chunk_drops_connection Sample.current_dir Sample.guess_type
           Wire.cut_character Wire.s0 []
           [[xa9] ++ encode (" HTTP/1.1" ++ CRLF ++ CRLF)]
           (encode "GET /caf" ++ [xc3]));
    try reflexivity.
  constructor.
Defined.

(** X20.  A peer that closes without sending anything, or whose first read
    returns no bytes, is sent nothing: the handler is not run, the empty
    request is noted in the log, and the connection is closed. *)
Theorem silent_peer_gets_nothing (current_dir : string)
    (guess_type : string -> option string * option string)
    (c : connection) (s : server_state) :
  hd [] (incoming c) = [] ->
  serve_connection current_dir guess_type c s
  = {| os := os s;
       trace := trace s ++ [ Log ("connection - " ++ show_addr (peer c));
                             Log "An empty request was recieved.";
                             Log ("Closing " ++ show_addr (peer c));
                             Close (peer c) ] |}.
Proof.
  intros H. unfold serve_connection.
  assert (Hrecv : fst (receive (incoming c) "") = Some EmptyString).
  { destruct (incoming c) as [|data later]; [reflexivity|].
    simpl in H. subst data. reflexivity. }
  rewrite Hrecv. unfold emit. simpl. now rewrite <- !app_assoc.
Qed.

Lemma silent_peer_gets_nothing_witness :
  serve_connection Sample.current_dir Sample.guess_type Wire.silent Wire.s0
  = {| os := os Wire.s0;
       trace := trace Wire.s0
                ++ [ Log ("connection - " ++ show_addr (peer Wire.silent));
                     Log "An empty request was recieved.";
                     Log ("Closing " ++ show_addr (peer Wire.silent));
                     Close (peer Wire.silent) ] |}.
Proof.
  apply silent_peer_gets_nothing. reflexivity.
Defined.

(** X21.  A POST request gets no answer on the wire: when the request
    received has POST as its first token, the server prints the traceback
    of [NotImplementedError], sends nothing and closes the connection. *)
Theorem post_connection_gets_no_reply (current_dir : string)
    (guess_type : string -> option string * option string)
    (c : connection) (s : server_state) (request : string) :
  fst (receive (incoming c) "") = Some request ->
  method_token request = "POST" ->
  answer current_dir guess_type c (os s) = Traceback (Raised NotImplementedError)
  /\ sent (serve_connection current_dir guess_type c s) = sent s
  /\ closed (serve_connection current_dir guess_type c s) = closed s ++ [peer c].
Proof.
  intros Hrecv Hpost.
  assert (Hans : answer current_dir guess_type c (os s)
                 = Traceback (Raised NotImplementedError)).
  { unfold answer. rewrite Hrecv, (response_of_post _ _ _ _ Hpost).
    destruct request; [discriminate Hpost|reflexivity]. }
  split; [exact Hans|]. split; [|apply serve_connection_closed].
  rewrite serve_connection_sent. unfold reply. rewrite Hans. simpl.
  now rewrite app_nil_r.
Qed.

Lemma post_connection_gets_no_reply_witness :
  answer Sample.current_dir Sample.guess_type
    (Wire.whole (request_text "POST" "/a.html" "HTTP/1.1" [] "")) (os Wire.s0)
  = Traceback (Raised NotImplementedError)
  /\ sent (serve_connection Sample.current_dir Sample.guess_type
             (Wire.whole (request_text "POST" "/a.html" "HTTP/1.1" [] "")) Wire.s0)
     = sent Wire.s0
  /\ closed (serve_connection Sample.current_dir Sample.guess_type
               (Wire.whole (request_text "POST" "/a.html" "HTTP/1.1" [] "")) Wire.s0)
     = closed Wire.s0 ++ [Wire.client].
Proof.
  apply (post_connection_gets_no_reply Sample.current_dir Sample.guess_type
           (Wire.whole (request_text "POST" "/a.html" "HTTP/1.1" [] "")) Wire.s0
           (request_text "POST" "/a.html" "HTTP/1.1" [] "")); reflexivity.
Defined.

(** X22.  When the handler returns a response for the request received,
    that response, and nothing else, is sent to the peer, before the
    connection is closed. *)
Theorem answered_connection_gets_response (current_dir : string)
    (guess_type : string -> option string * option string)
    (c : connection) (s : server_state) (request : string) (response : bytes) :
  fst (receive (incoming c) "") = Some request ->
  request <> EmptyString ->
  response_of current_dir guess_type request (os s) = Ok response ->
  sent (serve_connection current_dir guess_type c s) = sent s ++ [(peer c, response)]
  /\ trace (serve_connection current_dir guess_type c s)
     = trace s ++ [ Log ("connection - " ++ show_addr (peer c));
                    Sendall (peer c) response;
                    Log ("Closing " ++ show_addr (peer c));
                    Close (peer c) ].
Proof.
  intros Hrecv Hne Hresp.
  assert (Hans : answer current_dir guess_type c (os s) = Sendall (peer c) response).
  { unfold answer. rewrite Hrecv, Hresp.
    destruct request; [contradiction|reflexivity]. }
  split.
  - rewrite serve_connection_sent. unfold reply. now rewrite Hans.
  - now rewrite serve_connection_trace, Hans.
Qed.

Lemma answered_connection_gets_response_witness :
  sent (serve_connection Sample.current_dir Sample.guess_type
          (Wire.in_two "GET /a.html HT" ("TP/1.1" ++ CRLF ++ CRLF)) Wire.s0)
  = sent Wire.s0 ++ [(Wire.client, response_ok Sample.page (encode "text/html"))]
  /\ trace (serve_connection Sample.current_dir Sample.guess_type
              (Wire.in_two "GET /a.html HT" ("TP/1.1" ++ CRLF ++ CRLF)) Wire.s0)
     = trace Wire.s0
       ++ [ Log ("connection - " ++ show_addr Wire.client);
            Sendall Wire.client (response_ok Sample.page (encode "text/html"));
            Log ("Closing " ++ show_addr Wire.client);
            Close Wire.client ].
Proof.
  apply (answered_connection_gets_response Sample.current_dir Sample.guess_type
           (Wire.in_two "GET /a.html HT" ("TP/1.1" ++ CRLF ++ CRLF)) Wire.s0
           ("GET /a.html HTTP/1.1" ++ CRLF ++ CRLF));
    [reflexivity | discriminate | reflexivity].
Defined.

(** ** More on the handler *)

(** X23.  The only trace the handler leaves in the world is one printed
    text, the request between its heading and two line feeds, and it
    leaves it whether it returns a response or raises. *)
Theorem handle_request_prints_once (current_dir : string)
    (guess_type : string -> option string * option string)
    (request : string) (w : world) :
  snd (handle_request current_dir guess_type request w)
  = {| fs := fs w;
       stdout := stdout w ++ ["Request received:" ++ NL ++ request ++ NL ++ NL]%string |}.
Proof.
  now rewrite handle_request_run.
Qed.

(** X24.  Every method other than POST is served like GET: two requests of
    the accepted shape with the same path and any two methods that are
    not POST get the same response. *)
Theorem any_other_method_is_get (current_dir : string)
    (guess_type : string -> option string * option string) (w : world)
    (method1 method2 path version : string) (headers : list string)
    (payload : string) :
  contains SP method1 = false -> contains SP method2 = false ->
  contains SP path = false ->
  method1 <> "POST" -> method2 <> "POST" ->
  response_of current_dir guess_type
    (request_text method1 path version headers payload) w
  = response_of current_dir guess_type
      (request_text method2 path version headers payload) w.
Proof.
  intros H1 H2 Hp Hm1 Hm2.
  rewrite !response_of_run, !parse_request_request_text by assumption.
  destruct (String.eqb_spec method1 "POST"); [contradiction|].
  destruct (String.eqb_spec method2 "POST"); [contradiction|reflexivity].
Qed.

Lemma any_other_method_is_get_witness :
  response_of Sample.current_dir Sample.guess_type
    (request_text "DELETE" "/a.html" "HTTP/1.1" [] "") Sample.w0
  = response_of Sample.current_dir Sample.guess_type
      (request_text "GET" "/a.html" "HTTP/1.1" [] "") Sample.w0.
Proof.
  apply any_other_method_is_get; try reflexivity; discriminate.
Defined.

(** X25.  A directory listing can be read back: for a directory with at
    least one entry and no CR LF inside a name, cutting the decoded body
    of the resolver's result at CR LF gives exactly the names, in the
    order of the enumeration. *)
Theorem listing_reads_back (current_dir : string)
    (guess_type : string -> option string * option string)
    (path : string) (w : world) (names : list string) :
  fs w (query_of current_dir path) = Some (Dir names) ->
  names <> [] -> Forall (fun name => has_crlf name = false) names ->
  exists body,
    fst (response_path current_dir guess_type path w) = Ok (body, encode "text/plain")
    /\ split_crlf (decode body) = names.
Proof.
  intros Hdir Hne Hall. rewrite response_path_run, Hdir.
  eexists. split; [reflexivity|].
  rewrite decode_encode. now apply split_crlf_join.
Qed.

Lemma listing_reads_back_witness :
  exists body,
    fst (response_path Sample.current_dir Sample.guess_type "/" Sample.w0)
    = Ok (body, encode "text/plain")
    /\ split_crlf (decode body) = ["a.html"; "b.png"; "notes"].
Proof.
  apply (listing_reads_back Sample.current_dir Sample.guess_type "/" Sample.w0
           ["a.html"; "b.png"; "notes"]);
    [reflexivity | discriminate | repeat constructor].
Defined.
